(** * Tic Tac Toe (frontend_tic_tac_toe/src/App.js): game logic

    A shallow embedding of the game logic of [App.js]: the table
    [WIN_LINES], the helpers [calculateWinner] and [isBoardFull], the
    values derived in the body of [App] ([draw], [gameOver],
    [currentPlayer]) and the two handlers that change the component state,
    [handleSquareClickWithScore] (bound to [onSquareClick]) and
    [restartGame].

    Modelling choices.
    - A square holds ["X"], ["O"] or [null]; reading an array outside its
      elements gives [undefined].  These four are the type [value].
    - [squares] is a JavaScript array.  Its elements are a list; a write
      [next[i] = v] beyond the end extends the array, and a write at a key
      that is not an array index (a negative integer, or one from 2^32 - 1
      on) creates an own property that leaves the length alone.  Such
      properties are the finite map [props].  A hole of a sparse array is
      kept as [undefined]: the program reads squares only through
      [squares[i]], the spread [[...prev]] and [every((v) => v !== null)],
      and none of them tells a hole from [undefined].
    - The three pieces of React state are one record, and an event handler
      is a function from the state at the event to the state after it; the
      updater given to [setSquares] runs once, on the state the handler
      was created in.
    - The score counters are integers of unbounded size. *)

From stdpp Require Import base numbers list strings gmap.

Local Open Scope Z_scope.

(** ** Values and arrays *)

Inductive mark : Set := MarkX | MarkO.

Inductive value : Set :=
  | JNull
  | JUndefined
  | JMark (m : mark).

#[global] Instance mark_eq_dec : EqDecision mark.
Proof. solve_decision. Defined.

#[global] Instance value_eq_dec : EqDecision value.
Proof. solve_decision. Defined.

(** [Boolean(v)], the test of [if (v)] and of [v && ...]. *)
Definition truthy (v : value) : bool :=
  match v with
  | JMark _ => true
  | JNull | JUndefined => false
  end.

(** [v === w]. *)
Definition strict_eq (v w : value) : bool := bool_decide (v = w).

Record jsarray : Type := JsArray {
  elems : list value;
  props : gmap Z value
}.

(** A key is an array index when it is an integer in [0, 2^32 - 2]. *)
Definition is_array_index (i : Z) : bool :=
  (0 <=? i) && (i <? 2 ^ 32 - 1).

(** [a[i]] *)
Definition arr_get (a : jsarray) (i : Z) : value :=
  if is_array_index i
  then default JUndefined (elems a !! Z.to_nat i)
  else default JUndefined (props a !! i).

(** The elements after [l[n] = v]: in place inside the list, and past its
    end the list grows to length [n + 1], the gap reading [undefined]. *)
Definition list_store (l : list value) (n : nat) (v : value) : list value :=
  if decide (n < length l)%nat
  then <[n := v]> l
  else l ++ replicate (n - length l) JUndefined ++ [v].

(** [a[i] = v] *)
Definition arr_set (a : jsarray) (i : Z) (v : value) : jsarray :=
  if is_array_index i
  then {| elems := list_store (elems a) (Z.to_nat i) v; props := props a |}
  else {| elems := elems a; props := <[i := v]> (props a) |}.

(** [[...a]]: a fresh array of the elements of [a]; own properties that
    are not elements are not copied. *)
Definition spread (a : jsarray) : jsarray :=
  {| elems := elems a; props := ∅ |}.

(** [Array(n).fill(v)] *)
Definition array_fill (n : nat) (v : value) : jsarray :=
  {| elems := replicate n v; props := ∅ |}.

(** ** Winner evaluation *)

Definition WIN_LINES : list (Z * Z * Z) :=
  [ (0, 1, 2);
    (3, 4, 5);
    (6, 7, 8);
    (0, 3, 6);
    (1, 4, 7);
    (2, 5, 8);
    (0, 4, 8);
    (2, 4, 6) ].

Record winner_info : Type := WinnerInfo {
  winner : value;
  line : option (Z * Z * Z)
}.

(** The test of the [if] inside the loop of [calculateWinner]. *)
Definition line_hit (squares : jsarray) (l : Z * Z * Z) : bool :=
  let '(a, b, c) := l in
  truthy (arr_get squares a)
  && strict_eq (arr_get squares a) (arr_get squares b)
  && strict_eq (arr_get squares a) (arr_get squares c).

(** The [for ... of] loop of [calculateWinner], over the lines that are
    still to be visited. *)
Fixpoint scan_lines (lines : list (Z * Z * Z)) (squares : jsarray) : winner_info :=
  match lines with
  | [] => {| winner := JNull; line := None |}
  | l :: rest =>
      if line_hit squares l
      then {| winner := arr_get squares (fst (fst l)); line := Some l |}
      else scan_lines rest squares
  end.

Definition calculateWinner (squares : jsarray) : winner_info :=
  scan_lines WIN_LINES squares.

(** [squares.every((v) => v !== null)] *)
Definition isBoardFull (squares : jsarray) : bool :=
  forallb (fun v => negb (strict_eq v JNull)) (elems squares).

(** ** Component state and the values derived from it *)

Record score_table : Type := ScoreTable {
  score_X : Z;
  score_O : Z;
  draws : Z
}.

Record state : Type := State {
  squares : jsarray;
  xIsNext : bool;
  scores : score_table
}.

(** [useState(Array(9).fill(null))], [useState(true)],
    [useState({ X: 0, O: 0, draws: 0 })] *)
Definition initial_state : state :=
  {| squares := array_fill 9 JNull;
     xIsNext := true;
     scores := {| score_X := 0; score_O := 0; draws := 0 |} |}.

(** [const draw = !winner && isBoardFull(squares)] *)
Definition draw (sq : jsarray) : bool :=
  negb (truthy (winner (calculateWinner sq))) && isBoardFull sq.

(** [const gameOver = Boolean(winner) || draw] *)
Definition gameOver (sq : jsarray) : bool :=
  truthy (winner (calculateWinner sq)) || draw sq.

(** [xIsNext ? "X" : "O"] *)
Definition mark_of_turn (x : bool) : mark := if x then MarkX else MarkO.

Definition currentPlayer (st : state) : mark := mark_of_turn (xIsNext st).

(** [{ ...s, [m]: s[m] + 1 }] for a mark [m] *)
Definition bump_mark (m : mark) (s : score_table) : score_table :=
  match m with
  | MarkX => {| score_X := score_X s + 1; score_O := score_O s; draws := draws s |}
  | MarkO => {| score_X := score_X s; score_O := score_O s + 1; draws := draws s |}
  end.

(** [{ ...s, draws: s.draws + 1 }] *)
Definition bump_draws (s : score_table) : score_table :=
  {| score_X := score_X s; score_O := score_O s; draws := draws s + 1 |}.

(** The score table after the updater of [setSquares] has looked at
    [next]: the two [setScores] branches, or no call. *)
Definition scores_after (next : jsarray) (s : score_table) : score_table :=
  let nextResult := calculateWinner next in
  let nextDraw := negb (truthy (winner nextResult)) && isBoardFull next in
  match winner nextResult with
  | JMark m => bump_mark m s
  | JNull | JUndefined => if nextDraw then bump_draws s else s
  end.

Definition handleSquareClickWithScore (index : Z) (st : state) : state :=
  if gameOver (squares st) then st
  else if truthy (arr_get (squares st) index) then st
  else
    let next := arr_set (spread (squares st)) index (JMark (mark_of_turn (xIsNext st))) in
    {| squares := next;
       xIsNext := negb (xIsNext st);
       scores := scores_after next (scores st) |}.

Definition onSquareClick : Z -> state -> state := handleSquareClickWithScore.

Definition restartGame (keepScores : bool) (st : state) : state :=
  {| squares := array_fill 9 JNull;
     xIsNext := true;
     scores := if negb keepScores
               then {| score_X := 0; score_O := 0; draws := 0 |}
               else scores st |}.

(** A run of clicks, in order. *)
Definition clicks (indices : list Z) (st : state) : state :=
  fold_left (fun s i => onSquareClick i s) indices st.

(** ** Reading the specification

    The predicates and sample states the statements below are phrased
    with. *)

(** The three cells of line [l] hold the mark [m]. *)
Definition same_mark (sq : jsarray) (l : Z * Z * Z) (m : mark) : Prop :=
  arr_get sq (fst (fst l)) = JMark m
  /\ arr_get sq (snd (fst l)) = JMark m
  /\ arr_get sq (snd l) = JMark m.

(** The three cells of line [l] hold the same non-empty mark. *)
Definition wins (sq : jsarray) (l : Z * Z * Z) : Prop :=
  exists m, same_mark sq l m.

(** A drawn board: the nine cells are filled and no line wins. *)
Definition drawn_board : jsarray :=
  {| elems := [JMark MarkX; JMark MarkO; JMark MarkX;
               JMark MarkX; JMark MarkO; JMark MarkO;
               JMark MarkO; JMark MarkX; JMark MarkX];
     props := ∅ |}.

(** The mark that is not [m]. *)
Definition other_mark (m : mark) : mark :=
  match m with
  | MarkX => MarkO
  | MarkO => MarkX
  end.

(** The state after the clicks 0, 3, 1, 4: X on 0 and 1, O on 3 and 4,
    X to move. *)
Definition midgame_state : state := clicks [0; 3; 1; 4] initial_state.

(** The state after X has completed the top row. *)
Definition won_state : state := clicks [0; 3; 1; 4; 2] initial_state.

(** The states the component goes through when every click carries an
    index in 0..8, as the clicks of the nine rendered buttons do. *)
Inductive reachable : state -> Prop :=
  | reach_init : reachable initial_state
  | reach_click st i :
      reachable st -> 0 <= i <= 8 -> reachable (handleSquareClickWithScore i st)
  | reach_restart st keepScores :
      reachable st -> reachable (restartGame keepScores st).

(** The number of cells of the board that hold the mark [m]. *)
Definition count_mark (m : mark) (sq : jsarray) : Z :=
  Z.of_nat (length (filter (fun v => v = JMark m) (elems sq))).

(** Every cell is [null], ["X"] or ["O"]. *)
Definition cells_ok (sq : jsarray) : Prop :=
  Forall (fun v => v = JNull \/ v = JMark MarkX \/ v = JMark MarkO) (elems sq).

(** The invariant of the reachable states: nine well-formed cells, and
    as many X as O when X is to move, one more X when O is. *)
Definition board_inv (st : state) : Prop :=
  length (elems (squares st)) = 9%nat
  /\ cells_ok (squares st)
  /\ count_mark MarkX (squares st) - count_mark MarkO (squares st)
     = (if xIsNext st then 0 else 1).

(** No element of the array from position 9 on is [null].  It holds of a
    board of nine cells, and of everything clicks and restarts make of
    one, whatever the indices. *)
Definition no_null_beyond (sq : jsarray) : Prop :=
  forall n, (9 <= n)%nat -> elems sq !! n <> Some JNull.

(** The states reached by clicks with any integer index and restarts. *)
Inductive reachable_any : state -> Prop :=
  | reach_any_init : reachable_any initial_state
  | reach_any_click st i :
      reachable_any st -> reachable_any (handleSquareClickWithScore i st)
  | reach_any_restart st keepScores :
      reachable_any st -> reachable_any (restartGame keepScores st).

(** ** The rest of the component

    The first click handler, which the component defines and then
    replaces by [handleSquareClickWithScore], and the values the render
    derives for the status line, the help line and each square.  A value
    computed per square is a function of the index of that square. *)

(** [handleSquareClick]: the click handler without scoring. *)
Definition handleSquareClick (index : Z) (st : state) : state :=
  if gameOver (squares st) then st
  else if truthy (arr_get (squares st) index) then st
  else
    {| squares := arr_set (spread (squares st)) index (JMark (mark_of_turn (xIsNext st)));
       xIsNext := negb (xIsNext st);
       scores := scores st |}.

(** A run of clicks through [handleSquareClick]. *)
Definition plain_clicks (indices : list Z) (st : state) : state :=
  fold_left (fun s i => handleSquareClick i s) indices st.

(** The text of a mark inside a template literal. *)
Definition mark_text (m : mark) : string :=
  match m with
  | MarkX => "X"
  | MarkO => "O"
  end.

(** [statusText] *)
Definition statusText (st : state) : string :=
  match winner (calculateWinner (squares st)) with
  | JMark m => mark_text m +:+ " wins!"
  | JNull | JUndefined =>
      if draw (squares st)
      then "It's a draw!"
      else "Current player: " +:+ mark_text (currentPlayer st)
  end.

(** The three conditional spans of the help line, in order; a span whose
    guard is falsy renders nothing. *)
Definition helper_texts (sq : jsarray) : list string :=
  (if truthy (winner (calculateWinner sq))
   then ["Winning line highlighted."] else [])
  ++ (if draw sq
      then ["No more moves—restart to play again."] else [])
  ++ (if negb (gameOver sq)
      then ["Tip: You can’t overwrite a square once placed."] else []).

(** [l.includes(idx)] for a line [l] *)
Definition line_includes (l : Z * Z * Z) (idx : Z) : bool :=
  let '(a, b, c) := l in
  bool_decide (a = idx) || bool_decide (b = idx) || bool_decide (c = idx).

(** [winningLine ? winningLine.includes(idx) : false] *)
Definition isWinningSquare (sq : jsarray) (idx : Z) : bool :=
  match line (calculateWinner sq) with
  | Some l => line_includes l idx
  | None => false
  end.

(** [disabled={Boolean(value) || gameOver}] of the square at [idx] *)
Definition square_disabled (sq : jsarray) (idx : Z) : bool :=
  truthy (arr_get sq idx) || gameOver sq.

(** The number of [null] cells of the board. *)
Definition count_null (sq : jsarray) : Z :=
  Z.of_nat (length (filter (fun v => v = JNull) (elems sq))).

(** The number of clicks of a run that are accepted, which are those on a
    square that is not disabled. *)
Fixpoint accepted_clicks (indices : list Z) (st : state) : Z :=
  match indices with
  | [] => 0
  | i :: rest =>
      (if square_disabled (squares st) i then 0 else 1)
      + accepted_clicks rest (handleSquareClickWithScore i st)
  end.

(** Every winning line of the board holds the mark of the player who is
    not to move. *)
Definition lines_of_last_mover (st : state) : Prop :=
  forall l m, l ∈ WIN_LINES -> same_mark (squares st) l m ->
              m = other_mark (currentPlayer st).

(** The board with the two marks exchanged in every element and
    property. *)
Definition swap_value (v : value) : value :=
  match v with
  | JMark m => JMark (other_mark m)
  | JNull => JNull
  | JUndefined => JUndefined
  end.

Definition swap_board (sq : jsarray) : jsarray :=
  {| elems := swap_value <$> elems sq; props := swap_value <$> props sq |}.

(** ** The loop of [calculateWinner] *)

Lemma truthy_mark v : truthy v = true <-> exists m, v = JMark m.
Proof.
  destruct v; simpl; split; try discriminate; eauto.
  - intros [m [=]].
  - intros [m [=]].
Qed.

Lemma truthy_false v : truthy v = false <-> v = JNull \/ v = JUndefined.
Proof.
  destruct v; simpl; split; auto; try discriminate.
  intros [[=] | [=]].
Qed.

Lemma line_hit_wins sq l : line_hit sq l = true <-> wins sq l.
Proof.
  destruct l as [[a b] c]. unfold line_hit, wins, same_mark, strict_eq. simpl.
  rewrite !andb_true_iff, !bool_decide_eq_true, truthy_mark. split.
  - intros [[[m Ha] Hb] Hc]. exists m. rewrite <- Hb, <- Hc. auto.
  - intros (m & Ha & Hb & Hc). rewrite Ha, Hb, Hc. eauto.
Qed.

Lemma line_hit_no_win sq l : line_hit sq l = false <-> ~ wins sq l.
Proof.
  rewrite <- line_hit_wins. destruct (line_hit sq l); split; congruence.
Qed.

(** What the loop returns on any list of lines: the first line that wins,
    with the mark it holds, or nothing when no line wins. *)
Lemma scan_lines_first lines sq :
  (exists pre l post m,
      lines = pre ++ l :: post
      /\ Forall (fun l' => ~ wins sq l') pre
      /\ same_mark sq l m
      /\ scan_lines lines sq = {| winner := JMark m; line := Some l |})
  \/ (Forall (fun l' => ~ wins sq l') lines
      /\ scan_lines lines sq = {| winner := JNull; line := None |}).
Proof.
  induction lines as [| l rest IH]; simpl.
  - right. split; [constructor | reflexivity].
  - destruct (line_hit sq l) eqn:Hhit.
    + left. apply line_hit_wins in Hhit as [m Hm].
      exists [], l, rest, m. repeat split; try apply Hm; [constructor |].
      destruct Hm as [-> _]. reflexivity.
    + apply line_hit_no_win in Hhit.
      destruct IH as [(pre & l' & post & m & -> & Hpre & Hm & Hres) | [Hall Hres]].
      * left. exists (l :: pre), l', post, m. repeat split; try apply Hm; auto.
      * right. split; auto.
Qed.

(** The result of the loop is [null]/[null], or a mark together with a
    visited line whose cells all hold it. *)
Lemma scan_lines_result lines sq :
  match line (scan_lines lines sq) with
  | Some l => l ∈ lines /\ exists m, winner (scan_lines lines sq) = JMark m /\ same_mark sq l m
  | None => winner (scan_lines lines sq) = JNull
  end.
Proof.
  destruct (scan_lines_first lines sq)
    as [(pre & l & post & m & -> & _ & Hm & ->) | [_ ->]]; simpl; [| reflexivity].
  split; [| eauto]. apply elem_of_app. right. apply elem_of_cons. by left.
Qed.

Lemma winner_null_or_mark sq :
  winner (calculateWinner sq) = JNull \/ exists m, winner (calculateWinner sq) = JMark m.
Proof.
  unfold calculateWinner.
  destruct (scan_lines_first WIN_LINES sq)
    as [(pre & l & post & m & _ & _ & _ & ->) | [_ ->]]; simpl; eauto.
Qed.

Lemma winner_falsy_null sq :
  truthy (winner (calculateWinner sq)) = false <-> winner (calculateWinner sq) = JNull.
Proof.
  destruct (winner_null_or_mark sq) as [-> | [m ->]]; simpl; split; congruence.
Qed.

(** ** Winner evaluation: claims *)

(** C1.  For every array of squares, [calculateWinner] visits the eight
    lines [0,1,2], [3,4,5], [6,7,8], [0,3,6], [1,4,7], [2,5,8], [0,4,8],
    [2,4,6] in this order and returns the mark and the line of the first
    one whose three cells hold the same mark: the lines before the
    returned one do not win.  When no line wins it returns [null] for
    both the winner and the line.  So a board with several winning lines
    gets the first of them in this order. *)
Theorem calculateWinner_first_line (sq : jsarray) :
  WIN_LINES =
    [(0, 1, 2); (3, 4, 5); (6, 7, 8); (0, 3, 6); (1, 4, 7); (2, 5, 8); (0, 4, 8); (2, 4, 6)]
  /\ ((exists pre l post m,
         WIN_LINES = pre ++ l :: post
         /\ Forall (fun l' => ~ wins sq l') pre
         /\ same_mark sq l m
         /\ calculateWinner sq = {| winner := JMark m; line := Some l |})
      \/ (Forall (fun l' => ~ wins sq l') WIN_LINES
          /\ calculateWinner sq = {| winner := JNull; line := None |})).
Proof.
  split; [reflexivity |]. apply scan_lines_first.
Qed.

(** A board on which the top row and the left column both win: the row,
    which comes first, is returned. *)
Example calculateWinner_two_lines :
  let sq := {| elems := [JMark MarkX; JMark MarkX; JMark MarkX;
                         JMark MarkX; JMark MarkO; JMark MarkO;
                         JMark MarkX; JMark MarkO; JMark MarkO];
               props := ∅ |} in
  wins sq (0, 1, 2) /\ wins sq (0, 3, 6)
  /\ calculateWinner sq = {| winner := JMark MarkX; line := Some (0, 1, 2) |}.
Proof.
  simpl. repeat split; try (exists MarkX; repeat split).
Qed.

(** C10.  For every array of squares the result of [calculateWinner] is
    consistent: the winner is not [null] exactly when the line is not
    [null]; and when a line is returned it is one of the eight lines of
    [WIN_LINES], the winner is a mark, and the three cells of the line
    hold that mark. *)
Theorem calculateWinner_consistent (sq : jsarray) :
  (winner (calculateWinner sq) <> JNull <-> line (calculateWinner sq) <> None)
  /\ match line (calculateWinner sq) with
     | Some l =>
         l ∈ WIN_LINES
         /\ exists m, winner (calculateWinner sq) = JMark m /\ same_mark sq l m
     | None => winner (calculateWinner sq) = JNull
     end.
Proof.
  pose proof (scan_lines_result WIN_LINES sq) as H.
  fold (calculateWinner sq) in H. split; [| exact H].
  destruct (line (calculateWinner sq)) as [l |].
  - destruct H as [_ (m & -> & _)]. split; congruence.
  - rewrite H. split; congruence.
Qed.

(** ** Arrays: reads after a write *)

Lemma list_store_length l n v :
  length (list_store l n v) = Nat.max (length l) (S n).
Proof.
  unfold list_store. case_decide.
  - rewrite length_insert. lia.
  - rewrite !length_app, length_replicate. simpl. lia.
Qed.

Lemma list_store_lookup_same l n v : list_store l n v !! n = Some v.
Proof.
  unfold list_store. case_decide.
  - by apply list_lookup_insert_eq.
  - rewrite lookup_app_r by lia.
    rewrite lookup_app_r by (rewrite length_replicate; lia).
    rewrite length_replicate.
    replace (n - length l - (n - length l))%nat with 0%nat by lia. reflexivity.
Qed.

Lemma list_store_lookup_ne l n k v :
  k <> n ->
  default JUndefined (list_store l n v !! k) = default JUndefined (l !! k).
Proof.
  intros Hne. unfold list_store. case_decide.
  - by rewrite list_lookup_insert_ne.
  - destruct (decide (k < length l)%nat) as [Hk | Hk].
    + by rewrite lookup_app_l.
    + rewrite (lookup_ge_None_2 l k) by lia. simpl.
      rewrite lookup_app_r by lia.
      destruct (decide (k - length l < n - length l)%nat) as [Hgap | Hgap].
      * rewrite lookup_app_l by (rewrite length_replicate; lia).
        by rewrite lookup_replicate_2.
      * rewrite lookup_ge_None_2; [reflexivity |].
        rewrite length_app, length_replicate. simpl. lia.
Qed.

Lemma arr_get_set_same a i v : arr_get (arr_set a i v) i = v.
Proof.
  unfold arr_get, arr_set. destruct (is_array_index i); simpl.
  - by rewrite list_store_lookup_same.
  - by rewrite lookup_insert_eq.
Qed.

Lemma arr_get_set_ne a i j v :
  i <> j -> arr_get (arr_set a i v) j = arr_get a j.
Proof.
  intros Hne. unfold arr_get, arr_set.
  destruct (is_array_index i) eqn:Hi, (is_array_index j) eqn:Hj; simpl; auto.
  - apply list_store_lookup_ne.
    unfold is_array_index in Hi, Hj. lia.
  - by rewrite lookup_insert_ne.
Qed.

Lemma arr_get_spread a j :
  is_array_index j = true -> arr_get (spread a) j = arr_get a j.
Proof. unfold arr_get, spread. by intros ->. Qed.

Lemma is_array_index_board j : 0 <= j <= 8 -> is_array_index j = true.
Proof. unfold is_array_index. lia. Qed.

Lemma arr_get_elems a j :
  is_array_index j = true ->
  arr_get a j = default JUndefined (elems a !! Z.to_nat j).
Proof. unfold arr_get. by intros ->. Qed.

(** [calculateWinner] reads the cells 0 to 8 and nothing else. *)
Lemma calculateWinner_ext a b :
  (forall j, 0 <= j <= 8 -> arr_get a j = arr_get b j) ->
  calculateWinner a = calculateWinner b.
Proof.
  intros H. unfold calculateWinner, WIN_LINES, scan_lines, line_hit. simpl.
  rewrite !H by lia. reflexivity.
Qed.

Lemma isBoardFull_no_null sq : isBoardFull sq = true <-> JNull ∉ elems sq.
Proof.
  unfold isBoardFull. induction (elems sq) as [| v l IH]; simpl.
  - split; [intros _; apply not_elem_of_nil | reflexivity].
  - rewrite andb_true_iff, IH, not_elem_of_cons. unfold strict_eq.
    rewrite negb_true_iff, bool_decide_eq_false. intuition congruence.
Qed.

(** ** Derived status *)

(** C2.  On every board of nine cells, [draw] holds exactly when the
    winner is [null] and each of the cells 0 to 8 is non-empty, and
    [gameOver] holds exactly when the winner is not [null] or [draw]
    holds. *)
Theorem draw_gameOver_iff (sq : jsarray) :
  length (elems sq) = 9%nat ->
  (draw sq = true <->
     winner (calculateWinner sq) = JNull
     /\ forall i, 0 <= i <= 8 -> arr_get sq i <> JNull)
  /\ (gameOver sq = true <->
        winner (calculateWinner sq) <> JNull \/ draw sq = true).
Proof.
  intros Hlen. split.
  - unfold draw. rewrite andb_true_iff, negb_true_iff, winner_falsy_null,
      isBoardFull_no_null.
    split; intros [Hw Hfull]; (split; [exact Hw |]).
    + intros i Hi Hnull. apply Hfull.
      rewrite arr_get_elems in Hnull by (by apply is_array_index_board).
      destruct (elems sq !! Z.to_nat i) as [v |] eqn:Hv; simpl in Hnull; [| done].
      subst v. by eapply list_elem_of_lookup_2.
    + intros Hin. apply list_elem_of_lookup_1 in Hin as [n Hn].
      pose proof (lookup_lt_Some _ _ _ Hn) as Hlt.
      apply (Hfull (Z.of_nat n)); [lia |].
      rewrite arr_get_elems by (apply is_array_index_board; lia).
      by rewrite Nat2Z.id, Hn.
  - unfold gameOver. rewrite orb_true_iff.
    destruct (winner_null_or_mark sq) as [-> | [m ->]]; simpl;
      intuition congruence.
Qed.

Lemma draw_gameOver_iff_witness :
  length (elems drawn_board) = 9%nat
  /\ (draw drawn_board = true <->
        winner (calculateWinner drawn_board) = JNull
        /\ forall i, 0 <= i <= 8 -> arr_get drawn_board i <> JNull)
  /\ (gameOver drawn_board = true <->
        winner (calculateWinner drawn_board) <> JNull \/ draw drawn_board = true).
Proof.
  split; [reflexivity | apply (draw_gameOver_iff drawn_board); reflexivity].
Defined.

(** ** Moves *)

Lemma click_over st i :
  gameOver (squares st) = true -> handleSquareClickWithScore i st = st.
Proof. unfold handleSquareClickWithScore. by intros ->. Qed.

Lemma click_occupied st i :
  truthy (arr_get (squares st) i) = true -> handleSquareClickWithScore i st = st.
Proof.
  unfold handleSquareClickWithScore. intros ->. by destruct (gameOver _).
Qed.

Lemma click_accepted st i :
  gameOver (squares st) = false ->
  truthy (arr_get (squares st) i) = false ->
  handleSquareClickWithScore i st =
    let next := arr_set (spread (squares st)) i (JMark (currentPlayer st)) in
    {| squares := next;
       xIsNext := negb (xIsNext st);
       scores := scores_after next (scores st) |}.
Proof. unfold handleSquareClickWithScore. by intros -> ->. Qed.

Lemma clicks_over js st :
  gameOver (squares st) = true -> clicks js st = st.
Proof.
  intros Hover. unfold clicks, onSquareClick.
  induction js as [| j js IH]; simpl; [reflexivity |].
  by rewrite click_over.
Qed.

Lemma currentPlayer_flip st st' :
  xIsNext st' = negb (xIsNext st) ->
  currentPlayer st' = other_mark (currentPlayer st).
Proof. unfold currentPlayer. intros ->. by destruct (xIsNext st). Qed.

(** The score table moves exactly when the board written by the move is
    decided. *)
Lemma scores_after_changed next s :
  scores_after next s <> s <-> gameOver next = true.
Proof.
  unfold scores_after, gameOver, draw.
  destruct (winner_null_or_mark next) as [-> | [m ->]]; simpl.
  - destruct (isBoardFull next); simpl; [| intuition congruence].
    split; [reflexivity | intros _]. destruct s. unfold bump_draws. simpl.
    intros [=]. lia.
  - split; [reflexivity | intros _]. destruct s, m; unfold bump_mark; simpl;
      intros [=]; lia.
Qed.

Lemma scores_after_undecided next s :
  gameOver next = false -> scores_after next s = s.
Proof.
  unfold scores_after, gameOver, draw.
  destruct (winner_null_or_mark next) as [-> | [m ->]]; simpl; [| discriminate].
  by intros ->.
Qed.

(** C4.  A click is ignored when the game is over, whatever the index, and
    when the index is in 0..8 and its cell holds a mark: the state after
    the click is the state before it (squares, turn and the three score
    counters), and the handler, a total function, raises nothing. *)
Theorem click_rejected_unchanged (st : state) (i : Z) :
  gameOver (squares st) = true
  \/ (0 <= i <= 8 /\ exists m, arr_get (squares st) i = JMark m) ->
  handleSquareClickWithScore i st = st.
Proof.
  intros [Hover | [_ [m Hm]]].
  - by apply click_over.
  - apply click_occupied. by rewrite Hm.
Qed.

Lemma click_rejected_unchanged_witness :
  handleSquareClickWithScore 5 won_state = won_state
  /\ handleSquareClickWithScore 3 midgame_state = midgame_state.
Proof.
  split.
  - apply (click_rejected_unchanged won_state 5). left. reflexivity.
  - apply (click_rejected_unchanged midgame_state 3). right.
    split; [lia | exists MarkO; reflexivity].
Defined.

(** C6.  The turn alternates.  After an accepted click (game not over,
    target cell falsy) the clicked cell holds the mark of the player who
    moved and the current mark is the other one, also when that move ends
    the game; after a rejected click the current mark is what it was. *)
Theorem turn_alternates (st : state) (i : Z) :
  (gameOver (squares st) = false /\ truthy (arr_get (squares st) i) = false ->
     arr_get (squares (handleSquareClickWithScore i st)) i = JMark (currentPlayer st)
     /\ currentPlayer (handleSquareClickWithScore i st) = other_mark (currentPlayer st))
  /\ (gameOver (squares st) = true \/ truthy (arr_get (squares st) i) = true ->
        xIsNext (handleSquareClickWithScore i st) = xIsNext st
        /\ currentPlayer (handleSquareClickWithScore i st) = currentPlayer st).
Proof.
  split.
  - intros [Hover Hcell]. rewrite click_accepted by assumption. simpl. split.
    + apply arr_get_set_same.
    + by apply currentPlayer_flip.
  - intros [Hover | Hcell].
    + by rewrite click_over.
    + by rewrite click_occupied.
Qed.

Lemma turn_alternates_witness :
  (arr_get (squares (handleSquareClickWithScore 2 midgame_state)) 2 = JMark MarkX
   /\ currentPlayer (handleSquareClickWithScore 2 midgame_state) = MarkO)
  /\ (xIsNext (handleSquareClickWithScore 3 midgame_state) = true
      /\ currentPlayer (handleSquareClickWithScore 3 midgame_state) = MarkX).
Proof.
  split.
  - apply (proj1 (turn_alternates midgame_state 2)). split; reflexivity.
  - apply (proj2 (turn_alternates midgame_state 3)). right. reflexivity.
Defined.

(** C3.  An accepted move on an empty cell (game not over, target cell
    [null]) writes the current mark into that cell and leaves the other
    cells alone; the written board is then evaluated: a winner X adds 1 to
    the X counter only, a winner O adds 1 to the O counter only, a draw
    adds 1 to [draws] only, and otherwise the score table is unchanged.
    The table changes exactly when the written board is decided, and from
    then on every run of clicks leaves the whole state, scores included,
    as it is. *)
Theorem click_scores (st : state) (i : Z) :
  gameOver (squares st) = false ->
  arr_get (squares st) i = JNull ->
  let st' := handleSquareClickWithScore i st in
  arr_get (squares st') i = JMark (currentPlayer st)
  /\ (forall j, is_array_index j = true -> j <> i ->
        arr_get (squares st') j = arr_get (squares st) j)
  /\ scores st' =
       match winner (calculateWinner (squares st')) with
       | JMark MarkX =>
           {| score_X := score_X (scores st) + 1;
              score_O := score_O (scores st);
              draws := draws (scores st) |}
       | JMark MarkO =>
           {| score_X := score_X (scores st);
              score_O := score_O (scores st) + 1;
              draws := draws (scores st) |}
       | JNull | JUndefined =>
           if draw (squares st')
           then {| score_X := score_X (scores st);
                   score_O := score_O (scores st);
                   draws := draws (scores st) + 1 |}
           else scores st
       end
  /\ (scores st' <> scores st <-> gameOver (squares st') = true)
  /\ (gameOver (squares st') = true -> forall js, clicks js st' = st').
Proof.
  intros Hover Hcell st'. subst st'.
  rewrite click_accepted by (by rewrite ?Hcell). simpl.
  split; [apply arr_get_set_same |].
  split.
  { intros j Hj Hne. rewrite arr_get_set_ne by congruence.
    by apply arr_get_spread. }
  split.
  { unfold scores_after, draw.
    destruct (winner (calculateWinner _)) as [| | []]; reflexivity. }
  split; [apply scores_after_changed |].
  intros Hover' js. by apply clicks_over.
Qed.

Lemma click_scores_witness :
  arr_get (squares won_state) 2 = JMark MarkX
  /\ scores won_state = {| score_X := 1; score_O := 0; draws := 0 |}
  /\ clicks [5; 6; 7; 8] won_state = won_state.
Proof.
  destruct (click_scores midgame_state 2) as (Hcell & _ & Hs & _ & Hlater);
    [reflexivity | reflexivity |].
  split; [exact Hcell |]. split; [exact Hs |].
  apply Hlater. reflexivity.
Defined.

(** ** Restart *)

(** C7.  [restartGame] is defined on every state and every flag.  It
    makes the board nine [null] cells and the turn X's; with
    [keepScores] false the three counters become 0, with [keepScores]
    true the score table is the one before. *)
Theorem restartGame_resets (st : state) (keepScores : bool) :
  squares (restartGame keepScores st) =
    {| elems := [JNull; JNull; JNull; JNull; JNull; JNull; JNull; JNull; JNull];
       props := ∅ |}
  /\ xIsNext (restartGame keepScores st) = true
  /\ currentPlayer (restartGame keepScores st) = MarkX
  /\ scores (restartGame keepScores st) =
       if keepScores
       then scores st
       else {| score_X := 0; score_O := 0; draws := 0 |}.
Proof. destruct keepScores; repeat split. Qed.

(** ** A scenario *)

(** C8.  From the initial state, the clicks 0, 3, 1, 4, 2 give a state
    whose winner is X with winning line [0,1,2], and the scores X = 1,
    O = 0, draws = 0. *)
Theorem scenario_top_row :
  let st := clicks [0; 3; 1; 4; 2] initial_state in
  calculateWinner (squares st) = {| winner := JMark MarkX; line := Some (0, 1, 2) |}
  /\ score_X (scores st) = 1
  /\ score_O (scores st) = 0
  /\ draws (scores st) = 0.
Proof. repeat split. Qed.

(** ** Reachable states *)

Lemma count_insert_null (l : list value) (n : nat) (m p : mark) :
  l !! n = Some JNull ->
  length (filter (fun v => v = JMark m) (<[n := JMark p]> l))
  = (length (filter (fun v => v = JMark m) l) + (if decide (m = p) then 1 else 0))%nat.
Proof.
  revert n. induction l as [| v l IH]; intros [| n] Hn; try discriminate.
  - injection Hn as ->. change (<[0%nat := JMark p]> (JNull :: l)) with (JMark p :: l).
    rewrite !filter_cons.
    repeat case_decide; simplify_eq; simpl; lia.
  - change (<[S n := JMark p]> (v :: l)) with (v :: <[n := JMark p]> l).
    change ((v :: l) !! S n) with (l !! n) in Hn.
    rewrite !filter_cons.
    repeat case_decide; simpl; rewrite (IH n Hn); lia.
Qed.

Lemma cells_ok_insert (l : list value) (n : nat) (p : mark) :
  Forall (fun v => v = JNull \/ v = JMark MarkX \/ v = JMark MarkO) l ->
  Forall (fun v => v = JNull \/ v = JMark MarkX \/ v = JMark MarkO) (<[n := JMark p]> l).
Proof.
  intros H. apply Forall_insert; [exact H |]. destruct p; auto.
Qed.

Lemma board_inv_init : board_inv initial_state.
Proof.
  repeat split. unfold cells_ok. simpl. repeat constructor.
Qed.

Lemma board_inv_restart st keepScores : board_inv (restartGame keepScores st).
Proof.
  repeat split. unfold cells_ok. simpl. repeat constructor.
Qed.

Lemma board_inv_click st i :
  0 <= i <= 8 -> board_inv st -> board_inv (handleSquareClickWithScore i st).
Proof.
  intros Hi (Hlen & Hcells & Hcount).
  destruct (gameOver (squares st)) eqn:Hover.
  { rewrite click_over by assumption. by repeat split. }
  destruct (truthy (arr_get (squares st) i)) eqn:Hcell.
  { rewrite click_occupied by assumption. by repeat split. }
  rewrite click_accepted by assumption.
  assert (Hlt : (Z.to_nat i < length (elems (squares st)))%nat) by lia.
  assert (Hnull : elems (squares st) !! Z.to_nat i = Some JNull).
  { rewrite arr_get_elems in Hcell by (by apply is_array_index_board).
    destruct (lookup_lt_is_Some_2 _ _ Hlt) as [v Hv]. rewrite Hv in *. simpl in Hcell.
    unfold cells_ok in Hcells. rewrite Forall_lookup in Hcells.
    destruct (Hcells _ _ Hv) as [-> | [-> | ->]]; [reflexivity | discriminate ..]. }
  unfold board_inv, cells_ok, count_mark, arr_set, currentPlayer. simpl.
  rewrite (is_array_index_board i Hi). simpl.
  unfold list_store. rewrite decide_True by assumption.
  split; [by rewrite length_insert |].
  split; [by apply cells_ok_insert |].
  unfold count_mark in Hcount. rewrite !(count_insert_null _ _ _ _ Hnull).
  destruct (xIsNext st); simpl in *; repeat case_decide; simplify_eq; lia.
Qed.

Lemma reachable_board_inv st : reachable st -> board_inv st.
Proof.
  induction 1 as [| st i _ IH Hi | st k _ _].
  - apply board_inv_init.
  - by apply board_inv_click.
  - apply board_inv_restart.
Qed.

Lemma reachable_clicks js st :
  Forall (fun i => 0 <= i <= 8) js -> reachable st -> reachable (clicks js st).
Proof.
  intros Hjs. revert st. unfold clicks, onSquareClick.
  induction Hjs as [| j js Hj _ IH]; intros st Hst; simpl; [exact Hst |].
  apply IH. by apply reach_click.
Qed.

(** C9.  In every state reached from the initial one by clicks with
    indices in 0..8 and restarts, the board has nine cells, each of them
    [null], ["X"] or ["O"]; the number of X cells minus the number of O
    cells is 0 or 1; and the current player is X exactly when the two
    numbers are equal. *)
Theorem reachable_marks_balanced (st : state) :
  reachable st ->
  length (elems (squares st)) = 9%nat
  /\ Forall (fun v => v = JNull \/ v = JMark MarkX \/ v = JMark MarkO)
       (elems (squares st))
  /\ (count_mark MarkX (squares st) - count_mark MarkO (squares st) = 0
      \/ count_mark MarkX (squares st) - count_mark MarkO (squares st) = 1)
  /\ (currentPlayer st = MarkX <->
        count_mark MarkX (squares st) = count_mark MarkO (squares st)).
Proof.
  intros Hreach. destruct (reachable_board_inv st Hreach) as (Hlen & Hcells & Hcount).
  split; [exact Hlen |]. split; [exact Hcells |].
  unfold currentPlayer. destruct (xIsNext st); simpl.
  - split; [left; lia |]. split; [lia | reflexivity].
  - split; [right; lia |]. split; [discriminate | lia].
Qed.

Lemma reachable_marks_balanced_witness :
  length (elems (squares won_state)) = 9%nat
  /\ Forall (fun v => v = JNull \/ v = JMark MarkX \/ v = JMark MarkO)
       (elems (squares won_state))
  /\ (count_mark MarkX (squares won_state) - count_mark MarkO (squares won_state) = 0
      \/ count_mark MarkX (squares won_state) - count_mark MarkO (squares won_state) = 1)
  /\ (currentPlayer won_state = MarkX <->
        count_mark MarkX (squares won_state) = count_mark MarkO (squares won_state)).
Proof.
  apply (reachable_marks_balanced won_state).
  apply reachable_clicks; [| apply reach_init].
  repeat (constructor; [lia |]). constructor.
Defined.

(** ** Clicks outside the board *)

Lemma list_store_lookup_keep l n k v x :
  k <> n -> l !! k = Some x -> list_store l n v !! k = Some x.
Proof.
  intros Hne Hk. pose proof (lookup_lt_Some _ _ _ Hk) as Hlt.
  unfold list_store. case_decide.
  - by rewrite list_lookup_insert_ne.
  - by rewrite lookup_app_l.
Qed.

Lemma list_store_lookup_null l n k v :
  list_store l n (JMark v) !! k = Some JNull -> l !! k = Some JNull.
Proof.
  destruct (decide (k = n)) as [-> | Hne].
  { by rewrite list_store_lookup_same. }
  unfold list_store. case_decide.
  - by rewrite list_lookup_insert_ne.
  - destruct (decide (k < length l)%nat) as [Hk | Hk].
    + by rewrite lookup_app_l.
    + rewrite lookup_app_r by lia. intros Hgap.
      apply list_elem_of_lookup_2 in Hgap.
      apply elem_of_app in Hgap as [Hgap | Hgap].
      * by apply elem_of_replicate in Hgap as [[=] _].
      * by apply list_elem_of_singleton in Hgap.
Qed.

Lemma no_null_beyond_nine sq : length (elems sq) = 9%nat -> no_null_beyond sq.
Proof.
  intros Hlen n Hn. rewrite lookup_ge_None_2 by lia. discriminate.
Qed.

Lemma no_null_beyond_click st i :
  no_null_beyond (squares st) ->
  no_null_beyond (squares (handleSquareClickWithScore i st)).
Proof.
  intros Hinv. unfold handleSquareClickWithScore.
  destruct (gameOver _); [exact Hinv |].
  destruct (truthy _); [exact Hinv |].
  unfold arr_set. destruct (is_array_index i); simpl; [| exact Hinv].
  intros n Hn Hnull. apply list_store_lookup_null in Hnull. by apply (Hinv n).
Qed.

Lemma reachable_any_no_null_beyond st :
  reachable_any st -> no_null_beyond (squares st).
Proof.
  induction 1 as [| st i _ IH | st k _ _].
  - by apply no_null_beyond_nine.
  - by apply no_null_beyond_click.
  - by apply no_null_beyond_nine.
Qed.

(** A click outside 0..8 that is accepted writes outside the nine cells
    and leaves the board undecided, exactly as it was. *)
Lemma click_outside_not_over sq i v :
  i < 0 \/ 8 < i ->
  no_null_beyond sq ->
  gameOver sq = false ->
  truthy (arr_get sq i) = false ->
  gameOver (arr_set (spread sq) i (JMark v)) = false.
Proof.
  intros Hi Hinv Hover Hcell.
  unfold gameOver, draw in *.
  rewrite (calculateWinner_ext (arr_set (spread sq) i (JMark v)) sq).
  2:{ intros j Hj. rewrite arr_get_set_ne by lia.
      by apply arr_get_spread, is_array_index_board. }
  apply orb_false_iff in Hover as [Hw Hd]. rewrite Hw in *. simpl in *.
  destruct (isBoardFull sq) eqn:Hfull; [discriminate |].
  apply not_true_iff_false. rewrite isBoardFull_no_null. intros Hnext. apply Hnext.
  assert (Hin : JNull ∈ elems sq).
  { destruct (decide (JNull ∈ elems sq)) as [Hin | Hin]; [exact Hin |].
    apply isBoardFull_no_null in Hin. congruence. }
  apply list_elem_of_lookup_1 in Hin as [k Hk].
  assert (Hk9 : (k < 9)%nat).
  { destruct (decide (k < 9)%nat) as [Hlt | Hge]; [exact Hlt |].
    exfalso. apply (Hinv k); [lia | exact Hk]. }
  apply (list_elem_of_lookup_2 _ k).
  unfold arr_set. destruct (is_array_index i) eqn:Hidx; simpl; [| exact Hk].
  apply list_store_lookup_keep; [| exact Hk].
  unfold is_array_index in Hidx. lia.
Qed.

(** C5, as the code has it.  The handler has no range check.  For an
    integer index outside 0..8, on a state whose array has no [null]
    from position 9 on: the cells 0 to 8 and the three score counters are
    left unchanged; the click is ignored, the whole state staying as it
    is, when the game is over or the slot at that index already holds a
    mark; otherwise it is accepted like any other move: the current mark
    is stored at that index, outside the nine cells, and the turn
    flips. *)
Theorem click_out_of_range (st : state) (i : Z) :
  i < 0 \/ 8 < i ->
  no_null_beyond (squares st) ->
  let st' := handleSquareClickWithScore i st in
  (forall j, 0 <= j <= 8 -> arr_get (squares st') j = arr_get (squares st) j)
  /\ scores st' = scores st
  /\ (gameOver (squares st) = true \/ truthy (arr_get (squares st) i) = true ->
        st' = st)
  /\ (gameOver (squares st) = false /\ truthy (arr_get (squares st) i) = false ->
        arr_get (squares st') i = JMark (currentPlayer st)
        /\ xIsNext st' = negb (xIsNext st)).
Proof.
  intros Hi Hinv st'. subst st'.
  destruct (gameOver (squares st)) eqn:Hover.
  { rewrite click_over by assumption.
    split; [reflexivity |]. split; [reflexivity |]. split; [reflexivity |].
    by intros [[=] _]. }
  destruct (truthy (arr_get (squares st) i)) eqn:Hcell.
  { rewrite click_occupied by assumption.
    split; [reflexivity |]. split; [reflexivity |]. split; [reflexivity |].
    by intros [_ [=]]. }
  rewrite click_accepted by assumption. simpl.
  split.
  { intros j Hj. rewrite arr_get_set_ne by lia.
    by apply arr_get_spread, is_array_index_board. }
  split.
  { apply scores_after_undecided. by apply click_outside_not_over. }
  split; [by intros [[=] | [=]] |].
  intros _. split; [apply arr_get_set_same | reflexivity].
Qed.

Lemma click_out_of_range_witness :
  (forall j, 0 <= j <= 8 ->
     arr_get (squares (handleSquareClickWithScore 9 initial_state)) j
     = arr_get (squares initial_state) j)
  /\ scores (handleSquareClickWithScore 9 initial_state) = scores initial_state
  /\ arr_get (squares (handleSquareClickWithScore 9 initial_state)) 9 = JMark MarkX
  /\ xIsNext (handleSquareClickWithScore 9 initial_state) = false.
Proof.
  destruct (click_out_of_range initial_state 9) as (Hcells & Hscores & _ & Hacc).
  - right. lia.
  - apply no_null_beyond_nine. reflexivity.
  - split; [exact Hcells |]. split; [exact Hscores |].
    apply Hacc. split; reflexivity.
Defined.

(** C5, as the specification states it, fails.  On the initial state the
    clicks at 9 and at -1 are not ignored: the turn passes to O; the
    click at 9 makes the array ten long with ["X"] in the new slot, the
    click at -1 stores ["X"] under the key -1. *)
Lemma click_out_of_range_counterexample :
  handleSquareClickWithScore 9 initial_state <> initial_state
  /\ currentPlayer initial_state = MarkX
  /\ currentPlayer (handleSquareClickWithScore 9 initial_state) = MarkO
  /\ elems (squares (handleSquareClickWithScore 9 initial_state))
     = replicate 9 JNull ++ [JMark MarkX]
  /\ handleSquareClickWithScore (-1) initial_state <> initial_state
  /\ currentPlayer (handleSquareClickWithScore (-1) initial_state) = MarkO
  /\ arr_get (squares (handleSquareClickWithScore (-1) initial_state)) (-1) = JMark MarkX.
Proof.
  repeat split; try discriminate.
Qed.

(** ** The two click handlers *)

(** One click through either handler: board and turn after it depend on
    the board and turn before it only. *)
Lemma click_play_only sq x s1 s2 i :
  squares (handleSquareClickWithScore i (State sq x s1))
  = squares (handleSquareClick i (State sq x s2))
  /\ xIsNext (handleSquareClickWithScore i (State sq x s1))
     = xIsNext (handleSquareClick i (State sq x s2)).
Proof.
  unfold handleSquareClickWithScore, handleSquareClick. simpl.
  destruct (gameOver sq); [done |].
  by destruct (truthy (arr_get sq i)).
Qed.

Lemma handleSquareClick_scores i st : scores (handleSquareClick i st) = scores st.
Proof.
  unfold handleSquareClick.
  destruct (gameOver _); [done |]. by destruct (truthy _).
Qed.

(** What one scored click adds to each counter does not depend on the
    counters. *)
Lemma click_score_delta sq x s1 s2 i :
  let r1 := handleSquareClickWithScore i (State sq x s1) in
  let r2 := handleSquareClickWithScore i (State sq x s2) in
  squares r1 = squares r2
  /\ xIsNext r1 = xIsNext r2
  /\ score_X (scores r1) - score_X s1 = score_X (scores r2) - score_X s2
  /\ score_O (scores r1) - score_O s1 = score_O (scores r2) - score_O s2
  /\ draws (scores r1) - draws s1 = draws (scores r2) - draws s2.
Proof.
  unfold handleSquareClickWithScore. simpl.
  destruct (gameOver sq); simpl; [repeat split; lia |].
  destruct (truthy (arr_get sq i)); simpl; [repeat split; lia |].
  unfold scores_after.
  set (next := arr_set (spread sq) i (JMark (mark_of_turn x))).
  destruct (winner (calculateWinner next)) as [| | []]; simpl;
    try destruct (isBoardFull next); simpl; repeat split; lia.
Qed.

(** X1.  The handler without scoring and the handler with scoring play
    the same game: after any run of clicks from any state, the two leave
    the same squares and the same turn, and the handler without scoring
    leaves the score table as it was. *)
Theorem plain_clicks_same_game (js : list Z) (st : state) :
  squares (plain_clicks js st) = squares (clicks js st)
  /\ xIsNext (plain_clicks js st) = xIsNext (clicks js st)
  /\ scores (plain_clicks js st) = scores st.
Proof.
  assert (Hgen : forall st1 st2,
             squares st1 = squares st2 -> xIsNext st1 = xIsNext st2 ->
             squares (plain_clicks js st1) = squares (clicks js st2)
             /\ xIsNext (plain_clicks js st1) = xIsNext (clicks js st2)
             /\ scores (plain_clicks js st1) = scores st1).
  { unfold plain_clicks, clicks, onSquareClick.
    induction js as [| j js IH]; intros st1 st2 Hsq Hx; simpl; [done |].
    destruct st1 as [sq1 x1 s1], st2 as [sq2 x2 s2]. simpl in Hsq, Hx. subst sq2 x2.
    destruct (click_play_only sq1 x1 s2 s1 j) as [Hsq' Hx'].
    destruct (IH (handleSquareClick j (State sq1 x1 s1))
                (handleSquareClickWithScore j (State sq1 x1 s2))) as (H1 & H2 & H3);
      [done | done |].
    split; [exact H1 |]. split; [exact H2 |].
    rewrite H3. apply handleSquareClick_scores. }
  by apply Hgen.
Qed.

(** A run of scored clicks: squares and turn after it are determined by
    squares and turn before it, and so is what it adds to each counter. *)
Lemma clicks_score_delta (js : list Z) (sq : jsarray) (x : bool) (s1 s2 : score_table) :
  let r1 := clicks js (State sq x s1) in
  let r2 := clicks js (State sq x s2) in
  squares r1 = squares r2
  /\ xIsNext r1 = xIsNext r2
  /\ score_X (scores r1) - score_X s1 = score_X (scores r2) - score_X s2
  /\ score_O (scores r1) - score_O s1 = score_O (scores r2) - score_O s2
  /\ draws (scores r1) - draws s1 = draws (scores r2) - draws s2.
Proof.
  unfold clicks, onSquareClick. revert sq x s1 s2.
  induction js as [| j js IH]; intros sq x s1 s2; simpl; [repeat split; lia |].
  destruct (click_score_delta sq x s1 s2 j) as (Hsq & Hx & HX & HO & HD).
  destruct (handleSquareClickWithScore j (State sq x s1)) as [sq1 x1 t1].
  destruct (handleSquareClickWithScore j (State sq x s2)) as [sq2 x2 t2].
  simpl in *. subst sq2 x2.
  destruct (IH sq1 x1 t1 t2) as (H1 & H2 & H3 & H4 & H5).
  repeat split; try assumption; lia.
Qed.

(** X2.  The score table never influences play: two states with the same
    squares and turn stay so under any run of clicks, and the run adds the
    same amounts to the three counters of both. *)
Theorem clicks_ignore_scores (js : list Z) (sq : jsarray) (x : bool) (s1 s2 : score_table) :
  let r1 := clicks js (State sq x s1) in
  let r2 := clicks js (State sq x s2) in
  squares r1 = squares r2
  /\ xIsNext r1 = xIsNext r2
  /\ score_X (scores r1) - score_X s1 = score_X (scores r2) - score_X s2
  /\ score_O (scores r1) - score_O s1 = score_O (scores r2) - score_O s2
  /\ draws (scores r1) - draws s1 = draws (scores r2) - draws s2.
Proof. apply clicks_score_delta. Qed.

(** X14.  A game after a restart runs like the first game.  Whatever the
    state restarted from and the flag, a run of clicks after the restart
    gives the squares and the turn that the same run gives from the
    initial state, and each counter is its value after the restart plus
    what the run scores from the initial state. *)
Theorem restart_then_clicks (js : list Z) (st : state) (keepScores : bool) :
  let r := clicks js (restartGame keepScores st) in
  let r0 := clicks js initial_state in
  squares r = squares r0
  /\ xIsNext r = xIsNext r0
  /\ score_X (scores r)
     = score_X (scores (restartGame keepScores st)) + score_X (scores r0)
  /\ score_O (scores r)
     = score_O (scores (restartGame keepScores st)) + score_O (scores r0)
  /\ draws (scores r)
     = draws (scores (restartGame keepScores st)) + draws (scores r0).
Proof.
  destruct (clicks_score_delta js (array_fill 9 JNull) true
              (scores (restartGame keepScores st)) (scores initial_state))
    as (Hsq & Hx & HX & HO & HD).
  change (State (array_fill 9 JNull) true (scores (restartGame keepScores st)))
    with (restartGame keepScores st) in *.
  change (State (array_fill 9 JNull) true (scores initial_state))
    with initial_state in *.
  simpl in HX, HO, HD |- *. repeat split; try assumption; lia.
Qed.

(** ** What the render shows *)

(** X3.  A square is rendered disabled exactly when a click on it would be
    ignored: [disabled] is true if and only if the handler returns the
    state it was given. *)
Theorem square_disabled_iff_ignored (st : state) (i : Z) :
  square_disabled (squares st) i = true <-> handleSquareClickWithScore i st = st.
Proof.
  unfold square_disabled. split.
  - intros H. apply orb_true_iff in H as [H | H].
    + by apply click_occupied.
    + by apply click_over.
  - intros Hsame.
    destruct (gameOver (squares st)) eqn:Hover; [by rewrite orb_true_r |].
    destruct (truthy (arr_get (squares st) i)) eqn:Hcell; [done |].
    rewrite click_accepted in Hsame by assumption.
    apply (f_equal xIsNext) in Hsame. simpl in Hsame.
    by destruct (xIsNext st).
Qed.

(** X4.  The status text tells the phase of the game: it is ["X wins!"]
    or ["O wins!"] exactly when that mark is the winner, ["It's a draw!"]
    exactly when [draw] holds, and ["Current player: X"] or
    ["Current player: O"] exactly when the game is not over and that
    player is next. *)
Theorem statusText_phase (st : state) :
  (statusText st = "X wins!" <-> winner (calculateWinner (squares st)) = JMark MarkX)
  /\ (statusText st = "O wins!" <-> winner (calculateWinner (squares st)) = JMark MarkO)
  /\ (statusText st = "It's a draw!" <-> draw (squares st) = true)
  /\ (statusText st = "Current player: X" <->
        gameOver (squares st) = false /\ xIsNext st = true)
  /\ (statusText st = "Current player: O" <->
        gameOver (squares st) = false /\ xIsNext st = false).
Proof.
  unfold statusText, gameOver, draw, currentPlayer.
  destruct (winner_null_or_mark (squares st)) as [-> | [[] ->]]; simpl.
  - destruct (isBoardFull (squares st)), (xIsNext st); simpl;
      repeat split; try discriminate; try done; intros [? ?]; discriminate.
  - repeat split; try discriminate; try done; intros [? ?]; discriminate.
  - repeat split; try discriminate; try done; intros [? ?]; discriminate.
Qed.

(** X5.  The help line always shows exactly one of its three texts: the
    win text when there is a winner, the draw text on a draw, and the tip
    while the game goes on. *)
Theorem helper_texts_one (sq : jsarray) :
  helper_texts sq =
    [ if truthy (winner (calculateWinner sq)) then "Winning line highlighted."
      else if draw sq then "No more moves—restart to play again."
      else "Tip: You can’t overwrite a square once placed." ].
Proof.
  unfold helper_texts, gameOver, draw.
  destruct (truthy (winner (calculateWinner sq))); simpl; [reflexivity |].
  by destruct (isBoardFull sq).
Qed.

(** ** Runs of clicks *)

Lemma click_keeps_mark st i j m :
  is_array_index j = true ->
  arr_get (squares st) j = JMark m ->
  arr_get (squares (handleSquareClickWithScore i st)) j = JMark m.
Proof.
  intros Hj Hm.
  destruct (gameOver (squares st)) eqn:Hover; [by rewrite click_over |].
  destruct (truthy (arr_get (squares st) i)) eqn:Hcell; [by rewrite click_occupied |].
  rewrite click_accepted by assumption. simpl.
  assert (i <> j) by (intros ->; by rewrite Hm in Hcell).
  rewrite arr_get_set_ne by assumption. by rewrite arr_get_spread.
Qed.

(** X6.  A mark on an element of the array is never erased or
    overwritten by clicks: whatever the run of clicks, an element that
    holds a mark holds the same mark after it. *)
Theorem clicks_keep_marks (js : list Z) (st : state) (j : Z) (m : mark) :
  is_array_index j = true ->
  arr_get (squares st) j = JMark m ->
  arr_get (squares (clicks js st)) j = JMark m.
Proof.
  intros Hj. unfold clicks, onSquareClick. revert st.
  induction js as [| i js IH]; intros st Hm; simpl; [exact Hm |].
  apply IH. by apply click_keeps_mark.
Qed.

Lemma clicks_keep_marks_witness :
  arr_get (squares (clicks [0; 2; 5; 8] midgame_state)) 0 = JMark MarkX.
Proof.
  apply (clicks_keep_marks [0; 2; 5; 8] midgame_state 0 MarkX); reflexivity.
Defined.

(** One click: no counter goes down, the three together gain at most one
    point, and they gain nothing when the board after the click is
    undecided. *)
Lemma click_score_step st i :
  let st' := handleSquareClickWithScore i st in
  score_X (scores st) <= score_X (scores st')
  /\ score_O (scores st) <= score_O (scores st')
  /\ draws (scores st) <= draws (scores st')
  /\ score_X (scores st') + score_O (scores st') + draws (scores st')
     <= score_X (scores st) + score_O (scores st) + draws (scores st) + 1
  /\ (gameOver (squares st') = false -> scores st' = scores st).
Proof.
  simpl.
  destruct (gameOver (squares st)) eqn:Hover.
  { rewrite click_over by assumption. repeat split; lia. }
  destruct (truthy (arr_get (squares st) i)) eqn:Hcell.
  { rewrite click_occupied by assumption. repeat split; lia. }
  rewrite click_accepted by assumption. simpl.
  set (next := arr_set (spread (squares st)) i (JMark (currentPlayer st))).
  split; [| split; [| split; [| split ]]]; try apply scores_after_undecided;
    unfold scores_after;
    destruct (winner (calculateWinner next)) as [| | []]; simpl;
    try destruct (isBoardFull next); simpl; lia.
Qed.

(** X7.  A run of clicks without a restart scores at most one point:
    whatever the state and the indices, no counter goes down and the sum
    of the three counters grows by at most 1. *)
Theorem clicks_score_at_most_one (js : list Z) (st : state) :
  score_X (scores st) <= score_X (scores (clicks js st))
  /\ score_O (scores st) <= score_O (scores (clicks js st))
  /\ draws (scores st) <= draws (scores (clicks js st))
  /\ score_X (scores (clicks js st)) + score_O (scores (clicks js st))
     + draws (scores (clicks js st))
     <= score_X (scores st) + score_O (scores st) + draws (scores st) + 1.
Proof.
  revert st. induction js as [| i js IH]; intros st.
  { unfold clicks. simpl. lia. }
  change (clicks (i :: js) st) with (clicks js (handleSquareClickWithScore i st)).
  destruct (click_score_step st i) as (HX & HO & HD & Hsum & Hsame).
  destruct (gameOver (squares (handleSquareClickWithScore i st))) eqn:Hover.
  - rewrite clicks_over by assumption. lia.
  - specialize (IH (handleSquareClickWithScore i st)).
    rewrite (Hsame eq_refl) in *. lia.
Qed.

(** X8.  In every state reached from the initial one by clicks with any
    integer index and restarts with any flag, the three score counters
    are non-negative. *)
Theorem reachable_scores_nonneg (st : state) :
  reachable_any st ->
  0 <= score_X (scores st) /\ 0 <= score_O (scores st) /\ 0 <= draws (scores st).
Proof.
  induction 1 as [| st i _ IH | st k _ IH].
  - simpl. lia.
  - destruct (click_score_step st i) as (HX & HO & HD & _). lia.
  - destruct k; simpl; lia.
Qed.

Lemma reachable_scores_nonneg_witness :
  0 <= score_X (scores (handleSquareClickWithScore (-1) won_state))
  /\ 0 <= score_O (scores (handleSquareClickWithScore (-1) won_state))
  /\ 0 <= draws (scores (handleSquareClickWithScore (-1) won_state)).
Proof.
  apply (reachable_scores_nonneg (handleSquareClickWithScore (-1) won_state)).
  apply reach_any_click.
  change won_state with
    (handleSquareClickWithScore 2 (handleSquareClickWithScore 4
      (handleSquareClickWithScore 1 (handleSquareClickWithScore 3
        (handleSquareClickWithScore 0 initial_state))))).
  repeat apply reach_any_click. apply reach_any_init.
Defined.

(** ** The winner of a reachable game *)

Lemma win_line_cells l :
  l ∈ WIN_LINES ->
  0 <= fst (fst l) <= 8 /\ 0 <= snd (fst l) <= 8 /\ 0 <= snd l <= 8.
Proof.
  unfold WIN_LINES. intros Hl.
  repeat (apply elem_of_cons in Hl as [-> | Hl]; [simpl; lia |]).
  by apply elem_of_nil in Hl.
Qed.

Lemma no_winner_no_line sq l :
  winner (calculateWinner sq) = JNull -> l ∈ WIN_LINES -> ~ wins sq l.
Proof.
  unfold calculateWinner. intros Hw Hl.
  destruct (scan_lines_first WIN_LINES sq)
    as [(pre & l' & post & m & _ & _ & _ & Hres) | [Hall _]].
  - rewrite Hres in Hw. discriminate.
  - rewrite Forall_forall in Hall. by apply Hall.
Qed.

Lemma other_mark_involutive m : other_mark (other_mark m) = m.
Proof. by destruct m. Qed.

Lemma lines_of_last_mover_click st i :
  0 <= i <= 8 ->
  lines_of_last_mover st ->
  lines_of_last_mover (handleSquareClickWithScore i st).
Proof.
  intros Hi Hinv.
  destruct (gameOver (squares st)) eqn:Hover; [by rewrite click_over |].
  destruct (truthy (arr_get (squares st) i)) eqn:Hcell; [by rewrite click_occupied |].
  assert (Hnone : winner (calculateWinner (squares st)) = JNull).
  { apply winner_falsy_null. unfold gameOver in Hover.
    by apply orb_false_iff in Hover as [? _]. }
  rewrite click_accepted by assumption.
  intros l m Hl (Ha & Hb & Hc). simpl in Ha, Hb, Hc.
  rewrite (currentPlayer_flip st) by reflexivity. rewrite other_mark_involutive.
  destruct (win_line_cells l Hl) as (Ra & Rb & Rc).
  destruct (decide (i = fst (fst l))) as [-> | Na].
  { rewrite arr_get_set_same in Ha. congruence. }
  destruct (decide (i = snd (fst l))) as [-> | Nb].
  { rewrite arr_get_set_same in Hb. congruence. }
  destruct (decide (i = snd l)) as [-> | Nc].
  { rewrite arr_get_set_same in Hc. congruence. }
  exfalso. apply (no_winner_no_line (squares st) l Hnone Hl). exists m.
  rewrite arr_get_set_ne, arr_get_spread in Ha, Hb, Hc
    by (try apply is_array_index_board; assumption).
  by repeat split.
Qed.

Lemma fresh_board_null j : 0 <= j <= 8 -> arr_get (array_fill 9 JNull) j = JNull.
Proof.
  intros Hj. rewrite arr_get_elems by (by apply is_array_index_board).
  unfold array_fill. cbn [elems]. by rewrite lookup_replicate_2 by lia.
Qed.

Lemma reachable_lines_of_last_mover st : reachable st -> lines_of_last_mover st.
Proof.
  induction 1 as [| st i _ IH Hi | st k _ _].
  - intros l m Hl (Ha & _). destruct (win_line_cells l Hl) as (Ra & _).
    simpl in Ha. by rewrite fresh_board_null in Ha.
  - by apply lines_of_last_mover_click.
  - intros l m Hl (Ha & _). destruct (win_line_cells l Hl) as (Ra & _).
    simpl in Ha. by rewrite fresh_board_null in Ha.
Qed.

(** X9.  In a state reached by clicks on the nine squares and restarts,
    a winner is always the player who made the last move, that is the one
    who is not to move; and no line of [WIN_LINES] is held by the other
    mark, so the two players never both have a line. *)
Theorem reachable_winner_last_mover (st : state) (m : mark) :
  reachable st ->
  winner (calculateWinner (squares st)) = JMark m ->
  m = other_mark (currentPlayer st)
  /\ forall l, l ∈ WIN_LINES -> ~ same_mark (squares st) l (other_mark m).
Proof.
  intros Hreach Hw. pose proof (reachable_lines_of_last_mover st Hreach) as Hinv.
  pose proof (scan_lines_result WIN_LINES (squares st)) as Hres.
  fold (calculateWinner (squares st)) in Hres.
  destruct (line (calculateWinner (squares st))) as [l |]; [| congruence].
  destruct Hres as (Hl & m' & Hw' & Hsame).
  assert (m' = m) by congruence. subst m'.
  pose proof (Hinv l m Hl Hsame) as Hm. split; [exact Hm |].
  intros l' Hl' Hother. apply Hinv in Hother; [| exact Hl'].
  rewrite <- Hm in Hother. by destruct m.
Qed.

Lemma reachable_winner_last_mover_witness :
  MarkX = other_mark (currentPlayer won_state)
  /\ forall l, l ∈ WIN_LINES -> ~ same_mark (squares won_state) l (other_mark MarkX).
Proof.
  apply (reachable_winner_last_mover won_state MarkX); [| reflexivity].
  apply reachable_clicks; [| apply reach_init].
  repeat (constructor; [lia |]). constructor.
Defined.

(** ** Highlighted squares *)

(** X10.  The highlight follows the winner.  With a winner, exactly three
    of the squares 0 to 8 are highlighted and every highlighted square
    holds the winner's mark; without a winner no square is highlighted. *)
Theorem winning_squares (sq : jsarray) :
  match winner (calculateWinner sq) with
  | JMark m =>
      length (filter (fun idx => isWinningSquare sq idx = true) (seqZ 0 9)) = 3%nat
      /\ forall idx, isWinningSquare sq idx = true -> arr_get sq idx = JMark m
  | JNull | JUndefined => forall idx, isWinningSquare sq idx = false
  end.
Proof.
  pose proof (scan_lines_result WIN_LINES sq) as Hres.
  fold (calculateWinner sq) in Hres. unfold isWinningSquare.
  destruct (line (calculateWinner sq)) as [l |].
  - destruct Hres as (Hl & m & -> & Ha & Hb & Hc). split.
    + clear Ha Hb Hc. unfold WIN_LINES in Hl.
      repeat (apply elem_of_cons in Hl as [-> | Hl]; [reflexivity |]).
      by apply elem_of_nil in Hl.
    + intros idx. destruct l as [[a b] c]. unfold line_includes. simpl in *.
      rewrite !orb_true_iff, !bool_decide_eq_true.
      intros [[<- | <-] | <-]; assumption.
  - rewrite Hres. reflexivity.
Qed.

Lemma winning_squares_witness :
  length (filter (fun idx => isWinningSquare (squares won_state) idx = true) (seqZ 0 9))
  = 3%nat
  /\ forall idx, isWinningSquare (squares won_state) idx = true ->
                 arr_get (squares won_state) idx = JMark MarkX.
Proof. exact (winning_squares (squares won_state)). Defined.

(** ** Counting cells *)

Lemma cells_partition (l : list value) :
  Forall (fun v => v = JNull \/ v = JMark MarkX \/ v = JMark MarkO) l ->
  (length (filter (fun v => v = JMark MarkX) l)
   + length (filter (fun v => v = JMark MarkO) l)
   + length (filter (fun v => v = JNull) l))%nat
  = length l.
Proof.
  induction 1 as [| v l Hv _ IH]; [reflexivity |].
  rewrite !filter_cons.
  destruct Hv as [-> | [-> | ->]]; repeat case_decide; simplify_eq; simpl; lia.
Qed.

Lemma count_null_insert (l : list value) (n : nat) (p : mark) :
  l !! n = Some JNull ->
  S (length (filter (fun v => v = JNull) (<[n := JMark p]> l)))
  = length (filter (fun v => v = JNull) l).
Proof.
  revert n. induction l as [| v l IH]; intros [| n] Hn; try discriminate.
  - injection Hn as ->. change (<[0%nat := JMark p]> (JNull :: l)) with (JMark p :: l).
    rewrite !filter_cons. repeat case_decide; simplify_eq; simpl; lia.
  - change (<[S n := JMark p]> (v :: l)) with (v :: <[n := JMark p]> l).
    change ((v :: l) !! S n) with (l !! n) in Hn.
    rewrite !filter_cons. specialize (IH n Hn).
    repeat case_decide; simpl; lia.
Qed.

(** An accepted click on one of the nine squares of a reachable board
    fills exactly one empty cell. *)
Lemma click_fills_one st i :
  board_inv st -> 0 <= i <= 8 ->
  count_null (squares (handleSquareClickWithScore i st))
  = count_null (squares st) - (if square_disabled (squares st) i then 0 else 1).
Proof.
  intros (Hlen & Hcells & _) Hi. unfold square_disabled.
  destruct (gameOver (squares st)) eqn:Hover.
  { rewrite click_over by assumption. rewrite orb_true_r. lia. }
  destruct (truthy (arr_get (squares st) i)) eqn:Hcell.
  { rewrite click_occupied by assumption. simpl. lia. }
  rewrite click_accepted by assumption. simpl.
  assert (Hlt : (Z.to_nat i < length (elems (squares st)))%nat) by lia.
  assert (Hnull : elems (squares st) !! Z.to_nat i = Some JNull).
  { rewrite arr_get_elems in Hcell by (by apply is_array_index_board).
    destruct (lookup_lt_is_Some_2 _ _ Hlt) as [v Hv]. rewrite Hv in *. simpl in Hcell.
    unfold cells_ok in Hcells. rewrite Forall_lookup in Hcells.
    destruct (Hcells _ _ Hv) as [-> | [-> | ->]]; [reflexivity | discriminate ..]. }
  unfold count_null, arr_set. rewrite (is_array_index_board i Hi). simpl.
  unfold list_store. rewrite decide_True by assumption.
  pose proof (count_null_insert _ _ (currentPlayer st) Hnull). lia.
Qed.

Lemma board_inv_partition st :
  board_inv st ->
  count_mark MarkX (squares st) + count_mark MarkO (squares st)
  + count_null (squares st) = 9.
Proof.
  intros (Hlen & Hcells & _). pose proof (cells_partition _ Hcells) as Hpart.
  unfold count_mark, count_null. lia.
Qed.

(** X11.  On a reachable board the X cells, the O cells and the empty
    cells are nine together. *)
Theorem reachable_cells_partition (st : state) :
  reachable st ->
  count_mark MarkX (squares st) + count_mark MarkO (squares st)
  + count_null (squares st) = 9.
Proof.
  intros Hreach. by apply board_inv_partition, reachable_board_inv.
Qed.

Lemma reachable_cells_partition_witness :
  count_mark MarkX (squares won_state) + count_mark MarkO (squares won_state)
  + count_null (squares won_state) = 9.
Proof.
  apply (reachable_cells_partition won_state).
  apply reachable_clicks; [| apply reach_init].
  repeat (constructor; [lia |]). constructor.
Defined.

(** X12.  From a reachable state, a run of clicks on the nine squares
    fills one empty cell per accepted click and none per ignored click:
    the number of empty cells after the run is the number before it minus
    the number of accepted clicks.  So a run has at most as many accepted
    clicks as there were empty cells, and never more than nine. *)
Theorem clicks_fill_cells (js : list Z) (st : state) :
  reachable st ->
  Forall (fun i => 0 <= i <= 8) js ->
  count_null (squares (clicks js st))
  = count_null (squares st) - accepted_clicks js st
  /\ 0 <= accepted_clicks js st <= count_null (squares st)
  /\ count_null (squares st) <= 9.
Proof.
  intros Hreach Hjs.
  assert (Hgen : count_null (squares (clicks js st))
                 = count_null (squares st) - accepted_clicks js st
                 /\ 0 <= accepted_clicks js st).
  { revert st Hreach. induction Hjs as [| i js Hi _ IH]; intros st Hreach.
    - unfold clicks. simpl. lia.
    - change (clicks (i :: js) st) with (clicks js (handleSquareClickWithScore i st)).
      destruct (IH (handleSquareClickWithScore i st)) as [Hrun Hpos];
        [by apply reach_click |].
      pose proof (click_fills_one st i (reachable_board_inv st Hreach) Hi) as Hstep.
      simpl. destruct (square_disabled (squares st) i); lia. }
  destruct Hgen as [Hrun Hpos]. split; [exact Hrun |].
  assert (0 <= count_null (squares (clicks js st))) by (unfold count_null; lia).
  pose proof (board_inv_partition st (reachable_board_inv st Hreach)).
  assert (0 <= count_mark MarkX (squares st)) by (unfold count_mark; lia).
  assert (0 <= count_mark MarkO (squares st)) by (unfold count_mark; lia).
  lia.
Qed.

Lemma clicks_fill_cells_witness :
  count_null (squares (clicks [2; 2; 5] midgame_state))
  = count_null (squares midgame_state) - accepted_clicks [2; 2; 5] midgame_state
  /\ 0 <= accepted_clicks [2; 2; 5] midgame_state <= count_null (squares midgame_state)
  /\ count_null (squares midgame_state) <= 9.
Proof.
  apply (clicks_fill_cells [2; 2; 5] midgame_state).
  - apply reachable_clicks; [| apply reach_init].
    repeat (constructor; [lia |]). constructor.
  - repeat (constructor; [lia |]). constructor.
Defined.

(** X13.  A reachable game that ends in a draw has five X and four O on
    the board, and O is the player shown as next. *)
Theorem reachable_draw_counts (st : state) :
  reachable st ->
  draw (squares st) = true ->
  count_mark MarkX (squares st) = 5
  /\ count_mark MarkO (squares st) = 4
  /\ currentPlayer st = MarkO.
Proof.
  intros Hreach Hdraw.
  destruct (reachable_board_inv st Hreach) as (Hlen & Hcells & Hcount).
  pose proof (cells_partition _ Hcells) as Hpart.
  assert (Hfull : length (filter (fun v => v = JNull) (elems (squares st))) = 0%nat).
  { unfold draw in Hdraw. apply andb_true_iff in Hdraw as [_ Hfull].
    apply isBoardFull_no_null in Hfull.
    destruct (filter (fun v => v = JNull) (elems (squares st))) as [| v l] eqn:Hf;
      [reflexivity |].
    exfalso. assert (Hin : v ∈ filter (fun v => v = JNull) (elems (squares st))).
    { rewrite Hf. by left. }
    apply list_elem_of_filter in Hin as [-> Hin]. by apply Hfull. }
  unfold count_mark, currentPlayer in *.
  destruct (xIsNext st); simpl; repeat split; try reflexivity; lia.
Qed.

(** The state after the nine clicks 0, 1, 2, 4, 3, 5, 7, 6, 8. *)
Lemma reachable_draw_counts_witness :
  count_mark MarkX (squares (clicks [0; 1; 2; 4; 3; 5; 7; 6; 8] initial_state)) = 5
  /\ count_mark MarkO (squares (clicks [0; 1; 2; 4; 3; 5; 7; 6; 8] initial_state)) = 4
  /\ currentPlayer (clicks [0; 1; 2; 4; 3; 5; 7; 6; 8] initial_state) = MarkO.
Proof.
  apply (reachable_draw_counts (clicks [0; 1; 2; 4; 3; 5; 7; 6; 8] initial_state)).
  - apply reachable_clicks; [| apply reach_init].
    repeat (constructor; [lia |]). constructor.
  - reflexivity.
Defined.

(** ** Clicks with any index *)

(** X15.  Whatever the indices of the clicks, the nine squares stay a
    board: in every state reached from the initial one by clicks with any
    integer index and restarts, the array has at least nine elements and
    each of the cells 0 to 8 is [null], ["X"] or ["O"]. *)
Theorem reachable_any_board_cells (st : state) :
  reachable_any st ->
  (9 <= length (elems (squares st)))%nat
  /\ forall j, 0 <= j <= 8 ->
       arr_get (squares st) j = JNull
       \/ arr_get (squares st) j = JMark MarkX
       \/ arr_get (squares st) j = JMark MarkO.
Proof.
  induction 1 as [| st i _ [IHlen IHcells] | st k _ _].
  - split; [simpl; lia |].
    intros j Hj. left. by apply fresh_board_null.
  - destruct (gameOver (squares st)) eqn:Hover; [by rewrite click_over |].
    destruct (truthy (arr_get (squares st) i)) eqn:Hcell; [by rewrite click_occupied |].
    rewrite click_accepted by assumption. simpl. split.
    + unfold arr_set. destruct (is_array_index i); simpl; [| exact IHlen].
      rewrite list_store_length. lia.
    + intros j Hj. destruct (decide (i = j)) as [-> | Hne].
      * rewrite arr_get_set_same. destruct (currentPlayer st); auto.
      * rewrite arr_get_set_ne by assumption.
        rewrite arr_get_spread by (by apply is_array_index_board). by apply IHcells.
  - split; [simpl; lia |].
    intros j Hj. left. by apply fresh_board_null.
Qed.

Lemma reachable_any_board_cells_witness :
  (9 <= length (elems (squares (handleSquareClickWithScore 11 initial_state))))%nat
  /\ forall j, 0 <= j <= 8 ->
       arr_get (squares (handleSquareClickWithScore 11 initial_state)) j = JNull
       \/ arr_get (squares (handleSquareClickWithScore 11 initial_state)) j = JMark MarkX
       \/ arr_get (squares (handleSquareClickWithScore 11 initial_state)) j = JMark MarkO.
Proof.
  apply (reachable_any_board_cells (handleSquareClickWithScore 11 initial_state)).
  apply reach_any_click, reach_any_init.
Defined.

(** ** Symmetry of the winner evaluation *)

Lemma arr_get_swap sq i : arr_get (swap_board sq) i = swap_value (arr_get sq i).
Proof.
  unfold arr_get, swap_board. simpl. destruct (is_array_index i).
  - rewrite list_lookup_fmap. by destruct (elems sq !! Z.to_nat i).
  - rewrite lookup_fmap. by destruct (props sq !! i).
Qed.

Lemma truthy_swap v : truthy (swap_value v) = truthy v.
Proof. by destruct v. Qed.

Lemma strict_eq_swap v w : strict_eq (swap_value v) (swap_value w) = strict_eq v w.
Proof.
  unfold strict_eq. apply bool_decide_ext.
  destruct v as [| | []], w as [| | []]; simpl; split; congruence.
Qed.

Lemma line_hit_swap sq l : line_hit (swap_board sq) l = line_hit sq l.
Proof.
  destruct l as [[a b] c]. unfold line_hit.
  by rewrite !arr_get_swap, truthy_swap, !strict_eq_swap.
Qed.

Lemma isBoardFull_swap sq : isBoardFull (swap_board sq) = isBoardFull sq.
Proof.
  unfold isBoardFull, swap_board. simpl.
  induction (elems sq) as [| v l IH]; [reflexivity |].
  rewrite fmap_cons. cbn [forallb]. rewrite IH. f_equal.
  change JNull with (swap_value JNull) at 1.
  by rewrite strict_eq_swap.
Qed.

(** X16.  The evaluation treats the two marks alike.  Exchanging X and O
    in every cell exchanges them in the winner and changes nothing else:
    the returned line, [draw] and [gameOver] are the same. *)
Theorem calculateWinner_swap (sq : jsarray) :
  calculateWinner (swap_board sq)
  = {| winner := swap_value (winner (calculateWinner sq));
       line := line (calculateWinner sq) |}
  /\ draw (swap_board sq) = draw sq
  /\ gameOver (swap_board sq) = gameOver sq.
Proof.
  assert (Hscan : forall lines,
             scan_lines lines (swap_board sq)
             = {| winner := swap_value (winner (scan_lines lines sq));
                  line := line (scan_lines lines sq) |}).
  { induction lines as [| l rest IH]; simpl; [reflexivity |].
    rewrite line_hit_swap. destruct (line_hit sq l); simpl; [| exact IH].
    by rewrite arr_get_swap. }
  assert (Hw : calculateWinner (swap_board sq)
               = {| winner := swap_value (winner (calculateWinner sq));
                    line := line (calculateWinner sq) |}) by apply Hscan.
  split; [exact Hw |].
  unfold gameOver, draw. rewrite Hw. simpl.
  by rewrite truthy_swap, isBoardFull_swap.
Qed.

(** X17.  The winner is read off the cells 0 to 8 alone: two arrays that
    agree on these nine cells get the same result from
    [calculateWinner], whatever else they hold. *)
Theorem calculateWinner_board_only (a b : jsarray) :
  (forall j, 0 <= j <= 8 -> arr_get a j = arr_get b j) ->
  calculateWinner a = calculateWinner b.
Proof.
  intros Hab. unfold calculateWinner, WIN_LINES, scan_lines, line_hit. simpl.
  rewrite !Hab by lia. reflexivity.
Qed.

Lemma calculateWinner_board_only_witness :
  calculateWinner (squares (handleSquareClickWithScore 9 midgame_state))
  = calculateWinner (squares midgame_state).
Proof.
  apply (calculateWinner_board_only
           (squares (handleSquareClickWithScore 9 midgame_state))
           (squares midgame_state)).
  intros j Hj.
  assert (Hcases : j = 0 \/ j = 1 \/ j = 2 \/ j = 3 \/ j = 4
                   \/ j = 5 \/ j = 6 \/ j = 7 \/ j = 8) by lia.
  repeat (destruct Hcases as [-> | Hcases]; [reflexivity |]).
  subst j. reflexivity.
Defined.
